(** * Control plane of the container daemon: state, change kinds, API helpers

    A shallow embedding of [state.go] and [api/types.go], together with the
    API-layer operations that the test-suite [api_test.go] drives
    ([getBoolParam], [matchesContentType], the event log and the router).

    Conventions.
    - A Go [int] / [int64] is a [Z]; the operations below only store and
      compare such values, they never do arithmetic that could wrap.
    - A Go [string] is a [string]; [fmt.Sprintf] with [%s] is concatenation
      and with [%d] is the signed decimal rendering [fmt_d].
    - A method with a pointer receiver that mutates its receiver is a
      function from the old record to the new one.
    - [time.Now()] is an input of the operation that reads the clock. *)

From Stdlib Require Import ZArith String Ascii List Lia DecimalString.
From Stdlib Require Import DecimalPos DecimalZ.
From stdpp Require Import base option list strings gmap sorting.

Local Open Scope Z_scope.

(** ** Formatting *)

(** [%d] of [fmt.Sprintf]: optional minus sign, then decimal digits. *)
Definition fmt_d (n : Z) : string := NilZero.string_of_int (Z.to_int n).

(** ** Time *)

(** A [time.Time] instant, counted in nanoseconds from the zero [Time]. *)
Definition Time := Z.
(** A [time.Duration]: an [int64] count of nanoseconds. *)
Definition Duration := Z.

Definition maxDuration : Duration := 2 ^ 63 - 1.
Definition minDuration : Duration := - 2 ^ 63.

(** [t.Sub(u)]: the difference, saturated to the range of [Duration]. *)
Definition Sub (t u : Time) : Duration :=
  let d := t - u in
  if d <? minDuration then minDuration
  else if maxDuration <? d then maxDuration
  else d.

(** ** api/types.go *)

Module api.

(** [type State struct] *)
Record State := mkState {
  Running : bool;
  Pid : Z;
  ExitCode : Z;
  StartedAt : Time;
  Ghost : bool
}.

(** [type ChangeType int] with the [iota] constants. *)
Definition ChangeType := Z.

Definition iota_const (i : nat) : ChangeType := Z.of_nat i.

Definition ChangeModify : ChangeType := iota_const 0.
Definition ChangeAdd : ChangeType := iota_const 1.
Definition ChangeDelete : ChangeType := iota_const 2.

(** [type Change struct] *)
Record Change := mkChange {
  Path : string;
  Kind : ChangeType
}.

(** [func (change *Change) String() string]: the [switch] leaves [kind]
    at its zero value, the empty string, when no case matches. *)
Definition Change_String (change : Change) : string :=
  let kind :=
    if Kind change =? ChangeModify then "C"
    else if Kind change =? ChangeAdd then "A"
    else if Kind change =? ChangeDelete then "D"
    else "" in
  kind +:+ " " +:+ Path change.

(** [type JSONError struct] *)
Record JSONError := mkJSONError {
  Code : Z;
  Message : string
}.

(** [type JSONMessage struct]; [Error] is a nullable pointer. *)
Record JSONMessage := mkJSONMessage {
  Status : string;
  Progress : string;
  ErrorMessage : string;
  ID : string;
  Time : Z;
  Error : option JSONError
}.

(** [func (e *JSONError) Error() string] *)
Definition JSONError_Error (e : JSONError) : string := Message e.

(** The part of [http.Response] that [NewHTTPRequestError] reads. *)
Record http_Response := mkHttpResponse {
  StatusCode : Z
}.

(** A Go [error] value as this file produces them: the result of
    [fmt.Errorf] with a constant text, or a [*JSONError]. *)
Inductive GoError :=
| Errorf (text : string)
| ErrJSONError (e : JSONError).

(** The [Error()] method of such an error. *)
Definition GoError_Error (err : GoError) : string :=
  match err with
  | Errorf text => text
  | ErrJSONError e => JSONError_Error e
  end.

(** [func NewHTTPRequestError(msg string, res *http.Response) error] *)
Definition NewHTTPRequestError (msg : string) (res : http_Response) : GoError :=
  ErrJSONError (mkJSONError (StatusCode res) msg).

Definition CR : string := String "013"%char "".
Definition CRLF : string := String "013"%char (String "010"%char "").
(** [fmt.Sprintf("%c[2K", 27)]: the escape character, then ["[2K"]. *)
Definition eraseLine : string := String "027"%char "[2K".

Section Display.

(** The rendering by [%s] of [time.Unix(sec, 0)], from the [time] package. *)
Variable fmtUnix : Z -> string.

(** [func (jm *JSONMessage) Display(out io.Writer) error]; the writer is the
    text written to it so far, every [fmt.Fprintf] appends to it, and its
    results are ignored as in the source. *)
Definition Display (jm : JSONMessage) (out : string) : string * option GoError :=
  match Error jm with
  | Some e =>
      if Code e =? 401
      then (out, Some (Errorf "Authentication is required."))
      else (out, Some (ErrJSONError e))
  | None =>
      let out :=
        if negb (Time jm =? 0) then out +:+ "[" +:+ fmtUnix (Time jm) +:+ "] "
        else out in
      let out :=
        if negb (String.eqb (ID jm) "") then out +:+ ID jm +:+ ": "
        else out in
      let out :=
        if negb (String.eqb (Progress jm) "") then
          let out := out +:+ eraseLine in
          out +:+ Status jm +:+ " " +:+ Progress jm +:+ CR
        else out +:+ Status jm +:+ CRLF in
      (out, None)
  end.

End Display.

(** [type PortMapping map[string]string] *)
Definition PortMapping := gmap string string.

(** [type NetworkSettings struct]; a [nil] map is the empty map. *)
Record NetworkSettings := mkNetworkSettings {
  IPAddress : string;
  IPPrefixLen : Z;
  Gateway : string;
  Bridge : string;
  NS_PortMapping : gmap string PortMapping
}.

(** The order [<=] of Go strings: bytewise lexicographic. *)
Definition string_le (s t : string) : Prop := String.leb s t = true.

#[global] Instance string_le_dec (s t : string) : Decision (string_le s t).
Proof. unfold string_le. apply _. Defined.

(** [sort.Strings]: the strings in increasing order. *)
Definition sort_Strings (a : list string) : list string :=
  merge_sort string_le a.

(** [strings.Join(a, sep)] *)
Definition Join (a : list string) (sep : string) : string :=
  String.concat sep a.

(** The two [fmt.Sprintf] of [PortMappingHuman]; the key of an entry is the
    private port, its value the public one. *)
Definition fmt_tcp (kv : string * string) : string :=
  kv.2 +:+ "->" +:+ kv.1.
Definition fmt_udp (kv : string * string) : string :=
  kv.2 +:+ "->" +:+ kv.1 +:+ "/udp".

(** The body of [PortMappingHuman] when the two [range] loops visit the
    entries of the ["Tcp"] and of the ["Udp"] map in the orders [tcp] and
    [udp]; the order in which [range] visits a map is not fixed. *)
Definition PortMappingHuman_visiting (tcp udp : list (string * string))
    : string :=
  let mapping : list string := [] in
  let mapping := mapping ++ (fmt_tcp <$> tcp) in
  let mapping := mapping ++ (fmt_udp <$> udp) in
  Join (sort_Strings mapping) ", ".

(** [settings.PortMapping[key]]: a missing key gives the [nil] map. *)
Definition portMapping_at (settings : NetworkSettings) (key : string)
    : PortMapping :=
  default ∅ (NS_PortMapping settings !! key).

(** [func (settings *NetworkSettings) PortMappingHuman() string], visiting
    each map in the order of [map_to_list]. *)
Definition PortMappingHuman (settings : NetworkSettings) : string :=
  PortMappingHuman_visiting (map_to_list (portMapping_at settings "Tcp"))
                            (map_to_list (portMapping_at settings "Udp")).

End api.

(** ** state.go *)

(** [sync.Mutex]; its zero value is an unlocked mutex. *)
Inductive Mutex := Unlocked | Locked.

(** [type State struct { sync.Mutex; api.State }] *)
Record State := mkState {
  embMutex : Mutex;
  embState : api.State
}.

(** Promoted fields of the embedded [api.State]. *)
Definition Running (s : State) : bool := api.Running (embState s).
Definition Pid (s : State) : Z := api.Pid (embState s).
Definition ExitCode (s : State) : Z := api.ExitCode (embState s).
Definition StartedAt (s : State) : Time := api.StartedAt (embState s).
Definition Ghost (s : State) : bool := api.Ghost (embState s).

(** The zero value of [State]. *)
Definition zeroState : State :=
  mkState Unlocked (api.mkState false 0 0 0 false).

Section StateString.

(** [utils.HumanDuration], from the [utils] package. *)
Variable HumanDuration : Duration -> string.

(** [func (s *State) String() string] *)
Definition State_String (now : Time) (s : State) : string :=
  if Running s then
    if Ghost s then "Ghost"
    else "Up " +:+ HumanDuration (Sub now (StartedAt s))
  else "Exit " +:+ fmt_d (ExitCode s).

End StateString.

(** Assignments to the promoted fields, [s.Running = b] and the like. *)
Definition set_Running (b : bool) (s : State) : State :=
  let a := embState s in
  mkState (embMutex s)
    (api.mkState b (api.Pid a) (api.ExitCode a) (api.StartedAt a) (api.Ghost a)).
Definition set_Pid (pid : Z) (s : State) : State :=
  let a := embState s in
  mkState (embMutex s)
    (api.mkState (api.Running a) pid (api.ExitCode a) (api.StartedAt a) (api.Ghost a)).
Definition set_ExitCode (exitCode : Z) (s : State) : State :=
  let a := embState s in
  mkState (embMutex s)
    (api.mkState (api.Running a) (api.Pid a) exitCode (api.StartedAt a) (api.Ghost a)).
Definition set_StartedAt (t : Time) (s : State) : State :=
  let a := embState s in
  mkState (embMutex s)
    (api.mkState (api.Running a) (api.Pid a) (api.ExitCode a) t (api.Ghost a)).
Definition set_Ghost (b : bool) (s : State) : State :=
  let a := embState s in
  mkState (embMutex s)
    (api.mkState (api.Running a) (api.Pid a) (api.ExitCode a) (api.StartedAt a) b).

(** [func (s *State) setRunning(pid int)]; [now] is the value of
    [time.Now()] at the call. *)
Definition setRunning (now : Time) (pid : Z) (s : State) : State :=
  let s := set_Running true s in
  let s := set_Ghost false s in
  let s := set_ExitCode 0 s in
  let s := set_Pid pid s in
  let s := set_StartedAt now s in
  s.

(** [func (s *State) setStopped(exitCode int)] *)
Definition setStopped (exitCode : Z) (s : State) : State :=
  let s := set_Running false s in
  let s := set_Pid 0 s in
  let s := set_ExitCode exitCode s in
  s.

(** A call of one of the two mutators. *)
Inductive call :=
| SetRunning (now : Time) (pid : Z)
| SetStopped (exitCode : Z).

Definition run_call (s : State) (c : call) : State :=
  match c with
  | SetRunning now pid => setRunning now pid s
  | SetStopped exitCode => setStopped exitCode s
  end.

(** The state after a sequence of calls, first call first. *)
Definition run_calls (cs : list call) (s : State) : State :=
  fold_left run_call cs s.

(** States reachable from the zero value. *)
Inductive reachable : State -> Prop :=
| reach_zero : reachable zeroState
| reach_setRunning now pid s : reachable s -> reachable (setRunning now pid s)
| reach_setStopped exitCode s : reachable s -> reachable (setStopped exitCode s).

Definition positive_pid (c : call) : Prop :=
  match c with
  | SetRunning _ pid => 0 < pid
  | SetStopped _ => True
  end.


(** The [now] of the last [setRunning] call of a sequence, or [dflt] when
    the sequence has none. *)
Fixpoint last_start (cs : list call) (dflt : Time) : Time :=
  match cs with
  | [] => dflt
  | SetRunning now _ :: cs' => last_start cs' now
  | SetStopped _ :: cs' => last_start cs' dflt
  end.

(** Whether a sequence of calls has a [setRunning]. *)
Definition has_start (cs : list call) : bool :=
  existsb (λ c, match c with SetRunning _ _ => true | SetStopped _ => false end) cs.

(** ** Query parameters and content types *)

(** A Go [error] value of the API layer; [nil] is [None] of [option error].
    A parameter error names the offending value. *)
Inductive error :=
| BadParameter (value : string).

(** Modelled from the spec: [getBoolParam] is defined in the API source file,
    which is not among the sources; only its test [TestGetBoolParam] is.
    The grammar is the one of the router contract: ["1"], ["true"], ["True"]
    give true; [""], ["0"], ["false"] give false; any other value is a parse
    error, returned together with [false]. *)
Definition getBoolParam (value : string) : bool * option error :=
  if bool_decide (value ∈ ["1"; "true"; "True"]) then (true, None)
  else if bool_decide (value ∈ [""; "0"; "false"]) then (false, None)
  else (false, Some (BadParameter value)).

(** The bytes of a Go string. *)
Definition bytes (s : string) : list ascii := list_ascii_of_string s.

(** Blank space inside a header value: space and horizontal tab. *)
Definition is_space (c : ascii) : bool :=
  Ascii.eqb c " " || Ascii.eqb c "009".

(** ASCII lower case; media types and parameter names are compared without
    regard to case. *)
Definition to_lower (c : ascii) : ascii :=
  let n := N_of_ascii c in
  if (65 <=? n)%N && (n <=? 90)%N then ascii_of_N (n + 32) else c.

Definition lower (l : list ascii) : list ascii := to_lower <$> l.

Definition dquote : ascii := "034"%char.

(** The characters of a token of the media-type grammar: visible ASCII
    without the separators. *)
Definition is_tspecial (c : ascii) : bool :=
  bool_decide (c ∈ dquote :: bytes "()<>@,;:\/[]?=").

Definition is_token_char (c : ascii) : bool :=
  let n := N_of_ascii c in
  (33 <=? n)%N && (n <=? 126)%N && negb (is_tspecial c).

Definition is_token (l : list ascii) : bool :=
  negb (bool_decide (l = [])) && forallb is_token_char l.

(** A quoted string without escapes. *)
Definition is_qtext (c : ascii) : bool :=
  negb (Ascii.eqb c dquote) && negb (Ascii.eqb c "\").

Definition is_quoted (l : list ascii) : bool :=
  match l with
  | c :: l' =>
      Ascii.eqb c dquote &&
      match reverse l' with
      | d :: q => Ascii.eqb d dquote && forallb is_qtext q
      | [] => false
      end
  | [] => false
  end.

(** The value of a parameter: a token or a quoted string. *)
Definition is_value (l : list ascii) : bool := is_token l || is_quoted l.

Fixpoint trim_left (l : list ascii) : list ascii :=
  match l with
  | c :: l' => if is_space c then trim_left l' else l
  | [] => []
  end.

Definition trim_right (l : list ascii) : list ascii :=
  reverse (trim_left (reverse l)).

(** Without the blanks on either side. *)
Definition trim (l : list ascii) : list ascii := trim_right (trim_left l).

(** What precedes the first [sep], and what follows it when there is one. *)
Fixpoint split_at (sep : ascii) (l : list ascii)
    : list ascii * option (list ascii) :=
  match l with
  | [] => ([], None)
  | c :: l' =>
      if Ascii.eqb c sep then ([], Some l')
      else let (a, b) := split_at sep l' in (c :: a, b)
  end.

(** Modelled from the spec: the one parameter a matching header may carry,
    [charset=...]; the name is compared without regard to case. *)
Definition is_charset_param (p : list ascii) : bool :=
  match split_at "=" p with
  | (name, Some value) =>
      bool_decide (lower name = bytes "charset") && is_value value
  | (_, None) => false
  end.

(** Modelled from the spec: [matchesContentType] is defined in the API source
    file, which is not among the sources; only its test [TestJsonContentType]
    is. The match is a semantic content-type match, not string equality: the
    header is read as a media type followed by an optional parameter; the
    media type, compared without regard to case or to the blanks around it,
    must be the expected type, and the only parameter allowed is
    [charset]. *)
Definition matchesContentType (contentType expectedType : string) : bool :=
  let (mediatype, params) := split_at ";" (bytes contentType) in
  bool_decide (lower (trim mediatype) = lower (bytes expectedType))
  && match params with
     | None => true
     | Some p => is_charset_param (trim p)
     end.

Definition starts_space (l : list ascii) : bool :=
  match l with c :: _ => is_space c | [] => false end.

(** A string of blanks only. *)
Definition blank (s : string) : Prop := forallb is_space (bytes s) = true.

(** A string that neither starts nor ends with a blank. *)
Definition bare (s : string) : Prop :=
  starts_space (bytes s) = false /\ starts_space (reverse (bytes s)) = false.

(** The same media type, up to case. *)
Definition same_media_type (mt e : string) : Prop :=
  lower (bytes mt) = lower (bytes e).

(** The text of a [charset] parameter: [;], the name [charset] in any case,
    [=], and a value, with optional blanks before the name and after the
    value. *)
Definition charset_param (param : string) : Prop :=
  exists ws3 name value ws4 : string,
    param = ";" +:+ ws3 +:+ name +:+ "=" +:+ value +:+ ws4 /\
    blank ws3 /\ blank ws4 /\
    lower (bytes name) = bytes "charset" /\ is_value (bytes value) = true.

(** ** The event log *)

(** Modelled from the spec: what the receiving end of a listener's channel
    is doing, as a Go channel knows it. The listener is [Busy] while it
    replays or writes an event, [Blocked] once it waits in a receive on the
    empty channel, and has been [Handed] an event when a send met it
    waiting. *)
Inductive Receiver :=
| Busy
| Blocked
| Handed (jm : api.JSONMessage).

(** Modelled from the spec: the per-listener delivery channel of the event
    bus (the element type of the [listeners] map of [Server], a Go [chan
    api.JSONMessage]); its capacity, the messages sent and not yet
    received, oldest first, and the state of its receiver. *)
Record Chan := mkChan {
  chan_cap : nat;
  chan_buf : list api.JSONMessage;
  chan_receiver : Receiver
}.

(** A send on the channel can proceed without blocking: the receiver is
    waiting, or the buffer has room. *)
Definition chan_ready (c : Chan) : bool :=
  match chan_receiver c with
  | Blocked => true
  | _ => (length (chan_buf c) <? chan_cap c)%nat
  end.

(** Modelled from the spec: delivery to one listener's channel without
    blocking. The event goes to the waiting receiver or into the buffer;
    it is dropped for that listener when the channel is full. *)
Definition chan_offer (jm : api.JSONMessage) (c : Chan) : Chan :=
  match chan_receiver c with
  | Blocked => mkChan (chan_cap c) (chan_buf c) (Handed jm)
  | _ =>
      if (length (chan_buf c) <? chan_cap c)%nat
      then mkChan (chan_cap c) (chan_buf c ++ [jm]) (chan_receiver c)
      else c
  end.

(** Modelled from the spec: the listener's receive on its channel. It
    returns the event it was handed or the oldest buffered one; with
    neither it blocks. *)
Definition chan_receive (c : Chan) : option api.JSONMessage * Chan :=
  match chan_receiver c, chan_buf c with
  | Handed jm, _ => (Some jm, mkChan (chan_cap c) (chan_buf c) Busy)
  | _, jm :: rest => (Some jm, mkChan (chan_cap c) rest Busy)
  | _, [] => (None, mkChan (chan_cap c) [] Blocked)
  end.

(** The events a channel holds for its listener, oldest first. *)
Definition chan_pending (c : Chan) : list api.JSONMessage :=
  match chan_receiver c with
  | Handed jm => jm :: chan_buf c
  | _ => chan_buf c
  end.

(** A receiver only blocks on an empty channel. *)
Definition chan_wf (c : Chan) : Prop :=
  chan_receiver c = Blocked -> chan_buf c = [].

(** Modelled from the spec: appending to the bounded event log; once the
    capacity is reached the oldest entry is evicted. *)
Definition append_bounded (cap : nat) (evs : list api.JSONMessage)
    (jm : api.JSONMessage) : list api.JSONMessage :=
  if (length evs <? cap)%nat then evs ++ [jm] else drop 1 (evs ++ [jm]).


Section Server.

(** The container runtime the server fronts. *)
Context {Runtime : Type}.

(** The buffer size of the channel a new listener gets. *)
Variable listenerBuffer : nat.

(** The fields of [Server] as the tests build it:
    [&Server{runtime: ..., enableCors: ..., events: make([]api.JSONMessage,
    0, 64), listeners: make(map[string]chan api.JSONMessage)}].
    [events_cap] is the capacity of the [events] slice. *)
Record Server := mkServer {
  runtime : Runtime;
  enableCors : bool;
  events : list api.JSONMessage;
  events_cap : nat;
  listeners : gmap string Chan
}.

Definition set_events (evs : list api.JSONMessage) (srv : Server) : Server :=
  mkServer (runtime srv) (enableCors srv) evs (events_cap srv) (listeners srv).
Definition set_listeners (ls : gmap string Chan) (srv : Server) : Server :=
  mkServer (runtime srv) (enableCors srv) (events srv) (events_cap srv) ls.

(** Modelled from the spec: [LogEvent] is defined in the server source
    file, which is not among the sources; [TestGetEvents] calls it.
    It appends [{status: action, id: id, timestamp: now}] to the log, then
    offers the event to every registered listener without blocking. *)
Definition LogEvent (now : Z) (action id : string) (srv : Server) : Server :=
  let jm := api.mkJSONMessage action "" "" id now None in
  let srv := set_events (append_bounded (events_cap srv) (events srv) jm) srv in
  set_listeners (chan_offer jm <$> listeners srv) srv.

(** Modelled from the spec: [subscribe(listenerID)] registers a new
    delivery channel for the listener. *)
Definition subscribe (l : string) (srv : Server) : Server :=
  set_listeners (<[l := mkChan listenerBuffer [] Busy]> (listeners srv)) srv.

(** Modelled from the spec: [unsubscribe(listenerID)] removes the
    registration; a no-op when the listener was never subscribed. *)
Definition unsubscribe (l : string) (srv : Server) : Server :=
  set_listeners (delete l (listeners srv)) srv.

(** The events of the log with [timestamp >= since], in arrival order. *)
Definition replay (since : Z) (srv : Server) : list api.JSONMessage :=
  filter (λ jm, since ≤ api.Time jm) (events srv).

(** The server together with the state of each streaming response: the
    replayed events still to write, and what has been written. *)
Record Sys := mkSys {
  server : Server;
  todos : gmap string (list api.JSONMessage);
  outs : gmap string (list api.JSONMessage)
}.

Definition out (l : string) (sys : Sys) : list api.JSONMessage :=
  default [] (outs sys !! l).

Definition todo (l : string) (sys : Sys) : list api.JSONMessage :=
  default [] (todos sys !! l).

Definition pending (l : string) (sys : Sys) : list api.JSONMessage :=
  from_option chan_pending [] (listeners (server sys) !! l).

(** What the system does, one atomic action at a time. *)
Inductive action :=
| ALog (now : Z) (act id : string)
| AStreamSince (l : string) (since : Z)
| AForward (l : string)
| ACancel (l : string).

(** Modelled from the spec: [streamSince] (the events endpoint,
    [getEvents] with [?since=t]) is defined in the API source file, which
    is not among the sources. Its first step takes the
    buffered events with [timestamp >= since] and subscribes, as one atomic
    handoff under the lock of the log; the events taken are then written to
    the response one step at a time. *)
Definition streamSince (l : string) (since : Z) (sys : Sys) : Sys :=
  mkSys (subscribe l (server sys))
        (<[l := replay since (server sys)]> (todos sys))
        (<[l := []]> (outs sys)).

(** Modelled from the spec: one step of the stream of listener [l]. While
    replayed events remain it writes the next one; after that it receives
    from its channel and writes what it received, or blocks in the
    receive. *)
Definition forward (l : string) (sys : Sys) : Sys :=
  match todos sys !! l with
  | Some (jm :: rest) =>
      mkSys (server sys) (<[l := rest]> (todos sys))
            (<[l := out l sys ++ [jm]]> (outs sys))
  | _ =>
      match listeners (server sys) !! l with
      | Some c =>
          let (r, c') := chan_receive c in
          mkSys (set_listeners (<[l := c']> (listeners (server sys)))
                               (server sys))
                (todos sys)
                (match r with
                 | Some jm => <[l := out l sys ++ [jm]]> (outs sys)
                 | None => outs sys
                 end)
      | None => sys
      end
  end.

(** Modelled from the spec: the cancel signal of [streamSince] fires for
    listener [l]; it unsubscribes and returns. *)
Definition cancel (l : string) (sys : Sys) : Sys :=
  mkSys (unsubscribe l (server sys)) (delete l (todos sys)) (outs sys).

Definition step (sys : Sys) (a : action) : Sys :=
  match a with
  | ALog now act id =>
      mkSys (LogEvent now act id (server sys)) (todos sys) (outs sys)
  | AStreamSince l since => streamSince l since sys
  | AForward l => forward l sys
  | ACancel l => cancel l sys
  end.

Definition run (tr : list action) (sys : Sys) : Sys := fold_left step tr sys.

(** The events logged by a trace, in order. *)
Definition logged (tr : list action) : list api.JSONMessage :=
  omap (λ a, match a with
             | ALog now act id => Some (api.mkJSONMessage act "" "" id now None)
             | _ => None
             end) tr.

(** The stream of [l] stays open along the trace: it is neither started
    again nor cancelled. *)
Definition keeps_open (l : string) (a : action) : bool :=
  match a with
  | AStreamSince l' _ | ACancel l' => negb (String.eqb l l')
  | _ => true
  end.


(** The events of the trace that the channel of [l] takes: those logged
    while it is registered and ready. *)
Definition takes (l : string) (a : action) (sys : Sys)
    : list api.JSONMessage :=
  match a with
  | ALog now act id =>
      match listeners (server sys) !! l with
      | Some c =>
          if chan_ready c
          then [api.mkJSONMessage act "" "" id now None] else []
      | None => []
      end
  | _ => []
  end.

Fixpoint accepted (l : string) (tr : list action) (sys : Sys)
    : list api.JSONMessage :=
  match tr with
  | [] => []
  | a :: tr' => takes l a sys ++ accepted l tr' (step sys a)
  end.

(** Listener [l] runs until it has written everything that is waiting for
    it. *)
Definition drain (l : string) (sys : Sys) : Sys :=
  run (replicate (length (todo l sys) + length (pending l sys)) (AForward l))
      sys.

End Server.

(** ** The router *)

(** An API version, [major.minor], compared lexicographically. *)
Definition Version := (nat * nat)%type.

Definition version_lt (v w : Version) : bool :=
  (fst v <? fst w)%nat || ((fst v =? fst w)%nat && (snd v <? snd w)%nat).

(** Modelled from the spec: a request as the router sees it; the path is
    split into segments after the version prefix, and [req_version] is the
    version that prefix names. *)
Record Request := mkRequest {
  req_method : string;
  req_version : Version;
  req_path : list string;
  req_contentType : string;
  req_body : string
}.

Inductive Body :=
| NoBody
| JSONBody (json : string)
| ErrorBody (message : string).

Record Response := mkResponse {
  resp_status : Z;
  resp_headers : gmap string string;
  resp_body : Body
}.

(** Modelled from the spec: the kinds of error a handler reports, as the
    error translation of the router distinguishes them. *)
Inductive HandlerError :=
| ErrNotFound (message : string)
| ErrConflict (message : string)
| ErrMalformed (message : string)
| ErrOther (message : string).

Definition error_message (e : HandlerError) : string :=
  match e with
  | ErrNotFound m | ErrConflict m | ErrMalformed m | ErrOther m => m
  end.

(** Modelled from the spec: the error translation of the router contract;
    not-found gives 404, conflict 409, malformed input 400, anything else
    500. *)
Definition httpStatus (e : HandlerError) : Z :=
  match e with
  | ErrNotFound _ => 404
  | ErrConflict _ => 409
  | ErrMalformed _ => 400
  | ErrOther _ => 500
  end.

Definition errorResponse (status : Z) (message : string) : Response :=
  mkResponse status ∅ (ErrorBody message).

(** One segment of a path template: a literal or a named parameter
    such as [:name]. *)
Inductive Segment :=
| Lit (s : string)
| Param (name : string).

(** Modelled from the spec: matching a path against the template of a
    route key extracts the named parameters. *)
Fixpoint match_template (t : list Segment) (p : list string)
    : option (gmap string string) :=
  match t, p with
  | [], [] => Some ∅
  | Lit s :: t', x :: p' =>
      if String.eqb s x then match_template t' p' else None
  | Param n :: t', x :: p' =>
      vars ← match_template t' p'; Some (<[n := x]> vars)
  | _, _ => None
  end.

Definition corsHeaders : list (string * string) :=
  [ ("Access-Control-Allow-Origin", "*");
    ("Access-Control-Allow-Methods", "GET, POST, DELETE, PUT, OPTIONS");
    ("Access-Control-Allow-Headers",
     "Origin, X-Requested-With, Content-Type, Accept") ].

(** Modelled from the spec: with CORS enabled every response gets the three
    [Access-Control-Allow-*] headers. *)
Definition writeCorsHeaders (resp : Response) : Response :=
  mkResponse (resp_status resp)
             (foldr (λ kv h, <[kv.1 := kv.2]> h) (resp_headers resp) corsHeaders)
             (resp_body resp).

Section Router.

Context {Runtime : Type}.

(** A handler gets the server, the negotiated version, the request and the
    path parameters; it may change the server, and answers with a response
    or reports an error. *)
Definition Handler : Type :=
  @Server Runtime -> Version -> Request -> gmap string string ->
  @Server Runtime * (Response + HandlerError).

(** A route: its key (method and path template), the minimum version its
    handler supports, whether it expects a JSON body, and the handler. *)
Record Route := mkRoute {
  rt_method : string;
  rt_template : list Segment;
  rt_minVersion : Version;
  rt_jsonBody : bool;
  rt_handler : Handler
}.

Fixpoint find_route (routes : list Route) (req : Request)
    : option (Route * gmap string string) :=
  match routes with
  | [] => None
  | rt :: routes' =>
      if String.eqb (rt_method rt) (req_method req) then
        match match_template (rt_template rt) (req_path req) with
        | Some vars => Some (rt, vars)
        | None => find_route routes' req
        end
      else find_route routes' req
  end.

(** Modelled from the spec: the dispatch of the router built by
    [createRouter], which is defined in the API source file and is not
    among the sources; [TestOptionsRoute] and [TestGetEnabledCors] drive
    it. An [OPTIONS] request short-circuits with 200 and no body; any
    other request is routed, gated on the handler's minimum version and on
    the content type of a JSON body, then handled, a reported error being
    translated to its status. *)
Definition dispatch (routes : list Route) (srv : @Server Runtime)
    (req : Request) : @Server Runtime * Response :=
  if String.eqb (req_method req) "OPTIONS" then
    (srv, mkResponse 200 ∅ NoBody)
  else
    match find_route routes req with
    | None => (srv, errorResponse 404 "page not found")
    | Some (rt, vars) =>
        if version_lt (req_version req) (rt_minVersion rt) then
          (srv, errorResponse 400 "version not supported")
        else if rt_jsonBody rt && String.eqb (req_method req) "POST"
                && negb (matchesContentType (req_contentType req)
                                            "application/json") then
          (srv, errorResponse 400 "content type is not application/json")
        else
          match rt_handler rt srv (req_version req) req vars with
          | (srv', inl resp) => (srv', resp)
          | (srv', inr e) => (srv', errorResponse (httpStatus e) (error_message e))
          end
    end.

(** Modelled from the spec: [router.ServeHTTP]; the cross-cutting CORS
    policy is applied to whatever response the dispatch produced. *)
Definition ServeHTTP (routes : list Route) (srv : @Server Runtime)
    (req : Request) : @Server Runtime * Response :=
  let (srv', resp) := dispatch routes srv req in
  (srv', if enableCors srv then writeCorsHeaders resp else resp).

End Router.

(** * Properties *)

(** ** The state of a container *)

(** Reachability by constructors and by running a list of calls agree. *)
Lemma run_calls_snoc cs c s :
  run_calls (cs ++ [c]) s = run_call (run_calls cs s) c.
Proof. unfold run_calls. by rewrite fold_left_app. Qed.

Lemma reachable_run_calls cs : reachable (run_calls cs zeroState).
Proof.
  induction cs as [|c cs IH] using rev_ind; [constructor|].
  rewrite run_calls_snoc. destruct c; simpl; by constructor.
Qed.

Lemma reachable_is_run s : reachable s -> exists cs, s = run_calls cs zeroState.
Proof.
  induction 1 as [|now pid s _ [cs ->]|exitCode s _ [cs ->]].
  - by exists [].
  - exists (cs ++ [SetRunning now pid]). by rewrite run_calls_snoc.
  - exists (cs ++ [SetStopped exitCode]). by rewrite run_calls_snoc.
Qed.

(** C1, as stated, fails: [setRunning] stores the pid it is given without
    looking at it, so [setRunning(0)] on the zero state reaches a state that
    is running with [Pid = 0]. *)
Lemma C1_setRunning_zero_pid :
  reachable (setRunning 0 0 zeroState) /\
  Running (setRunning 0 0 zeroState) = true /\
  Pid (setRunning 0 0 zeroState) = 0 /\
  ~ (forall s, reachable s ->
       (Running s = true -> 0 < Pid s) /\ (Running s = false -> Pid s = 0)).
Proof.
  assert (Hreach : reachable (setRunning 0 0 zeroState))
    by apply reach_setRunning, reach_zero.
  split; [exact Hreach|]. split; [reflexivity|]. split; [reflexivity|].
  intros H. destruct (H _ Hreach) as [Hpos _].
  specialize (Hpos eq_refl). vm_compute in Hpos. discriminate.
Qed.

(** C1, amended: in every state reachable from the zero state by a sequence
    of [setRunning] and [setStopped] calls, [Running = false] implies
    [Pid = 0]; and [Running = true] implies [Pid > 0] when every [setRunning]
    call of the sequence was given a positive pid. *)
Theorem C1_pid_invariant (cs : list call) :
  let s := run_calls cs zeroState in
  (Running s = false -> Pid s = 0) /\
  (Forall positive_pid cs -> Running s = true -> 0 < Pid s).
Proof.
  induction cs as [|c cs IH] using rev_ind; simpl.
  - split; [reflexivity | intros _ H; discriminate H].
  - rewrite run_calls_snoc. simpl in IH. destruct IH as [IH0 IHpos].
    destruct c as [now pid|exitCode]; simpl; split.
    + intros H. discriminate H.
    + intros Hall _. apply Forall_app in Hall as [_ Hc].
      by inversion Hc.
    + reflexivity.
    + intros _ H. discriminate H.
Qed.

Lemma C1_pid_invariant_witness :
  let cs := [SetRunning 5 42; SetStopped 0; SetRunning 9 7] in
  Forall positive_pid cs /\ Running (run_calls cs zeroState) = true /\
  0 < Pid (run_calls cs zeroState).
Proof.
  intros cs.
  assert (Hall : Forall positive_pid cs).
  { repeat constructor. }
  split; [exact Hall|]. split; [reflexivity|].
  exact (proj2 (C1_pid_invariant cs) Hall eq_refl).
Defined.

(** C2: [String] gives ["Up <duration>"] for a running state that is not a
    ghost, ["Ghost"] for a running ghost, and ["Exit <code>"] with the stored
    exit code otherwise; after [setStopped(137)] it is ["Exit 137"]. *)
Theorem C2_String (HumanDuration : Duration -> string) (now : Time) (s : State) :
  (Running s = true -> Ghost s = false ->
   State_String HumanDuration now s
   = "Up " +:+ HumanDuration (Sub now (StartedAt s))) /\
  (Running s = true -> Ghost s = true ->
   State_String HumanDuration now s = "Ghost") /\
  (Running s = false ->
   State_String HumanDuration now s = "Exit " +:+ fmt_d (ExitCode s)) /\
  State_String HumanDuration now (setStopped 137 s) = "Exit 137".
Proof.
  unfold State_String. repeat split.
  - by intros -> ->.
  - by intros -> ->.
  - by intros ->.
Qed.

Lemma C2_String_witness :
  let hd : Duration -> string := λ d, fmt_d (d / 1000000000) +:+ " seconds" in
  let up := setRunning 1000000000 42 zeroState in
  let ghost := set_Ghost true up in
  State_String hd 6000000000 up = "Up 5 seconds" /\
  State_String hd 6000000000 ghost = "Ghost" /\
  State_String hd 6000000000 (setStopped 3 up) = "Exit 3".
Proof.
  intros hd up ghost.
  destruct (C2_String hd 6000000000 up) as (Hup & _ & _ & _).
  destruct (C2_String hd 6000000000 ghost) as (_ & Hghost & _ & _).
  destruct (C2_String hd 6000000000 (setStopped 3 up)) as (_ & _ & Hexit & _).
  split; [exact (Hup eq_refl eq_refl)|].
  split; [exact (Hghost eq_refl eq_refl)|].
  exact (Hexit eq_refl).
Defined.

(** C3: [setRunning(pid)] sets [Running] to true, [Ghost] to false,
    [ExitCode] to 0, [Pid] to [pid] and [StartedAt] to the time of the call;
    it is a total function, there is no error path. *)
Theorem C3_setRunning (now : Time) (pid : Z) (s : State) :
  Running (setRunning now pid s) = true /\
  Ghost (setRunning now pid s) = false /\
  ExitCode (setRunning now pid s) = 0 /\
  Pid (setRunning now pid s) = pid /\
  StartedAt (setRunning now pid s) = now /\
  embMutex (setRunning now pid s) = embMutex s.
Proof. repeat split. Qed.

(** C4: [setStopped(exitCode)] sets [Running] to false, [Pid] to 0 and
    [ExitCode] to [exitCode]; [setRunning(42)] then [setStopped(0)] gives
    [Running = false], [Pid = 0], [ExitCode = 0]. *)
Theorem C4_setStopped (exitCode : Z) (now : Time) (s : State) :
  Running (setStopped exitCode s) = false /\
  Pid (setStopped exitCode s) = 0 /\
  ExitCode (setStopped exitCode s) = exitCode /\
  let s' := setStopped 0 (setRunning now 42 s) in
  Running s' = false /\ Pid s' = 0 /\ ExitCode s' = 0.
Proof. repeat split. Qed.

(** C9: [setStopped(exitCode)] leaves [Ghost] and [StartedAt] (and the
    mutex) as they were, so it changes [Running], [Pid] and [ExitCode] only;
    a ghost flag survives [setStopped] and is cleared by the next
    [setRunning]. *)
Theorem C9_setStopped_frame (exitCode : Z) (now : Time) (pid : Z) (s : State) :
  Ghost (setStopped exitCode s) = Ghost s /\
  StartedAt (setStopped exitCode s) = StartedAt s /\
  embMutex (setStopped exitCode s) = embMutex s /\
  setStopped exitCode s
  = set_ExitCode exitCode (set_Pid 0 (set_Running false s)) /\
  Ghost (setStopped exitCode (set_Ghost true s)) = true /\
  Ghost (setRunning now pid (setStopped exitCode (set_Ghost true s))) = false.
Proof. repeat split. Qed.

(** C10: the change kinds are [ChangeModify = 0], [ChangeAdd = 1],
    [ChangeDelete = 2]; [Change.String()] is the letter ["C"], ["A"] or
    ["D"] of the kind, a space, and the path; for any other kind the letter
    is missing and the result is a space and the path. *)
Theorem C10_Change_String (path : string) (kind : api.ChangeType) :
  api.ChangeModify = 0 /\ api.ChangeAdd = 1 /\ api.ChangeDelete = 2 /\
  api.Change_String (api.mkChange path api.ChangeModify) = "C " +:+ path /\
  api.Change_String (api.mkChange path api.ChangeAdd) = "A " +:+ path /\
  api.Change_String (api.mkChange path api.ChangeDelete) = "D " +:+ path /\
  (kind <> 0 -> kind <> 1 -> kind <> 2 ->
   api.Change_String (api.mkChange path kind) = " " +:+ path).
Proof.
  repeat split.
  intros H0 H1 H2. unfold api.Change_String; simpl.
  change api.ChangeModify with 0. change api.ChangeAdd with 1.
  change api.ChangeDelete with 2.
  destruct (Z.eqb_spec kind 0); [done|].
  destruct (Z.eqb_spec kind 1); [done|].
  destruct (Z.eqb_spec kind 2); [done|]. reflexivity.
Qed.

Lemma C10_Change_String_witness :
  api.Change_String (api.mkChange "/etc/hosts" 7) = " /etc/hosts" /\
  api.Change_String (api.mkChange "/etc/hosts" api.ChangeAdd) = "A /etc/hosts".
Proof.
  destruct (C10_Change_String "/etc/hosts" 7) as (_ & _ & _ & _ & HA & _ & Hother).
  split; [apply Hother; discriminate | exact HA].
Defined.

(** ** Query parameters and content types *)

Lemma append_cons (a : ascii) (s t : string) :
  String a s +:+ t = String a (s +:+ t).
Proof. reflexivity. Qed.

Lemma append_assoc (s t u : string) : (s +:+ t) +:+ u = s +:+ t +:+ u.
Proof.
  induction s as [|a s IH]; [reflexivity|].
  rewrite !append_cons. by rewrite IH.
Qed.

Lemma prefix_iff_append (p s : string) :
  String.prefix p s = true <-> exists t, s = p +:+ t.
Proof.
  revert s. induction p as [|a p IH]; intros s; simpl.
  - split; [intros _; by exists s | by destruct s].
  - destruct s as [|b s]; simpl.
    + split; [done | intros [t Ht]; by rewrite append_cons in Ht].
    + destruct (Ascii.ascii_dec a b) as [->|Hne].
      * rewrite IH.
        split; intros [t Ht]; exists t; rewrite append_cons in *; congruence.
      * split; [done | intros [t Ht]; rewrite append_cons in Ht; congruence].
Qed.

(** C5: [getBoolParam] gives [(true, nil)] on ["1"], ["true"], ["True"],
    [(false, nil)] on [""], ["0"], ["false"], and on any other string an
    error together with [false]. *)
Theorem C5_getBoolParam (value : string) :
  (value ∈ ["1"; "true"; "True"] -> getBoolParam value = (true, None)) /\
  (value ∈ [""; "0"; "false"] -> getBoolParam value = (false, None)) /\
  (value ∉ ["1"; "true"; "True"; ""; "0"; "false"] ->
   exists e, getBoolParam value = (false, Some e)).
Proof.
  repeat split.
  - intros H. repeat (apply elem_of_cons in H as [->|H]; [reflexivity|]).
    by apply elem_of_nil in H.
  - intros H. repeat (apply elem_of_cons in H as [->|H]; [reflexivity|]).
    by apply elem_of_nil in H.
  - intros H. unfold getBoolParam.
    rewrite !bool_decide_eq_false_2; [by eexists| |];
      intros Hin; apply H; rewrite !elem_of_cons in *; tauto.
Qed.

Lemma C5_getBoolParam_witness :
  getBoolParam "True" = (true, None) /\
  getBoolParam "0" = (false, None) /\
  getBoolParam "faux" = (false, Some (BadParameter "faux")).
Proof.
  split; [|split].
  - apply (proj1 (C5_getBoolParam "True")). by apply (bool_decide_unpack _).
  - apply (proj1 (proj2 (C5_getBoolParam "0"))). by apply (bool_decide_unpack _).
  - destruct (proj2 (proj2 (C5_getBoolParam "faux"))) as [e He].
    + by apply (bool_decide_unpack _).
    + rewrite He. vm_compute in He. congruence.
Defined.

Lemma bytes_app (s t : string) : bytes (s +:+ t) = bytes s ++ bytes t.
Proof.
  induction s as [|a s IH]; [reflexivity|].
  change (String a s +:+ t) with (String a (s +:+ t)).
  unfold bytes in *. simpl. by rewrite IH.
Qed.

Lemma bytes_inj (s t : string) : bytes s = bytes t -> s = t.
Proof.
  intros H. rewrite <- (string_of_list_ascii_of_string s),
    <- (string_of_list_ascii_of_string t). unfold bytes in H. by rewrite H.
Qed.

Lemma bytes_of_list (l : list ascii) : bytes (string_of_list_ascii l) = l.
Proof. apply list_ascii_of_string_of_list_ascii. Qed.

Lemma split_at_inv sep l a ob :
  split_at sep l = (a, ob) ->
  (sep ∉ a) /\ l = a ++ match ob with Some b => sep :: b | None => [] end.
Proof.
  revert a ob. induction l as [|c l IH]; intros a ob; simpl.
  - intros [= <- <-]. split; [apply not_elem_of_nil | done].
  - destruct (Ascii.eqb_spec c sep) as [->|Hne].
    + intros [= <- <-]. split; [apply not_elem_of_nil | done].
    + destruct (split_at sep l) as [a' ob'] eqn:Hs. intros [= <- <-].
      destruct (IH _ _ eq_refl) as [Hni ->]. split; [|done].
      rewrite not_elem_of_cons. split; [congruence | done].
Qed.

Lemma split_at_app sep a b :
  sep ∉ a -> split_at sep (a ++ sep :: b) = (a, Some b).
Proof.
  induction a as [|c a IH]; simpl; intros Hni.
  - by rewrite Ascii.eqb_refl.
  - apply not_elem_of_cons in Hni as [Hne Hni].
    destruct (Ascii.eqb_spec c sep) as [->|_]; [done|]. by rewrite IH.
Qed.

Lemma split_at_none sep a : sep ∉ a -> split_at sep a = (a, None).
Proof.
  induction a as [|c a IH]; simpl; intros Hni; [done|].
  apply not_elem_of_cons in Hni as [Hne Hni].
  destruct (Ascii.eqb_spec c sep) as [->|_]; [done|]. by rewrite IH.
Qed.

Lemma trim_left_inv l :
  exists ws, l = ws ++ trim_left l /\ forallb is_space ws = true /\
             starts_space (trim_left l) = false.
Proof.
  induction l as [|c l (ws & Hl & Hws & Hs)]; simpl.
  - by exists [].
  - destruct (is_space c) eqn:Hc.
    + exists (c :: ws). simpl. rewrite Hc, Hws. split; [by f_equal|done].
    + exists []. simpl. by rewrite Hc.
Qed.

Lemma trim_left_app ws m :
  forallb is_space ws = true -> starts_space m = false ->
  trim_left (ws ++ m) = m.
Proof.
  induction ws as [|c ws IH]; simpl; intros Hws Hm.
  - destruct m as [|c m]; [done|]. simpl in *. by rewrite Hm.
  - apply andb_true_iff in Hws as [-> Hws]. by apply IH.
Qed.

Lemma forallb_reverse {A} (f : A -> bool) l :
  forallb f (reverse l) = forallb f l.
Proof.
  induction l as [|x l IH]; [done|].
  rewrite reverse_cons, forallb_app, IH. simpl. by rewrite andb_true_r, andb_comm.
Qed.

Lemma starts_space_app l1 l2 :
  l1 <> [] -> starts_space (l1 ++ l2) = starts_space l1.
Proof. by destruct l1. Qed.

Lemma trim_inv l :
  exists ws1 ws2,
    l = ws1 ++ trim l ++ ws2 /\
    forallb is_space ws1 = true /\ forallb is_space ws2 = true /\
    starts_space (trim l) = false /\ starts_space (reverse (trim l)) = false.
Proof.
  destruct (trim_left_inv l) as (ws1 & Hl & Hws1 & Hs1).
  destruct (trim_left_inv (reverse (trim_left l))) as (ws2 & Hr & Hws2 & Hs2).
  exists ws1, (reverse ws2). unfold trim, trim_right.
  rewrite reverse_involutive, forallb_reverse.
  repeat split; try done.
  - rewrite <- reverse_app, <- Hr, reverse_involutive. exact Hl.
  - apply (f_equal reverse) in Hr. rewrite reverse_involutive, reverse_app in Hr.
    destruct (reverse (trim_left (reverse (trim_left l)))) as [|c r] eqn:Hrev;
      [done|].
    rewrite Hr in Hs1. by rewrite starts_space_app in Hs1.
Qed.

Lemma trim_app ws1 m ws2 :
  forallb is_space ws1 = true -> forallb is_space ws2 = true ->
  starts_space m = false -> starts_space (reverse m) = false ->
  trim (ws1 ++ m ++ ws2) = m.
Proof.
  intros H1 H2 Hs He. unfold trim, trim_right.
  destruct m as [|c m].
  - simpl. rewrite <- (app_nil_r (ws1 ++ ws2)), trim_left_app; try done.
    by rewrite forallb_app, H1, H2.
  - rewrite trim_left_app; [|done|by rewrite starts_space_app].
    rewrite reverse_app, trim_left_app, reverse_involutive; try done.
    by rewrite forallb_reverse.
Qed.

Lemma space_not_sep c : is_space c = true -> c <> ";"%char.
Proof. intros H ->. discriminate H. Qed.

Lemma blank_no_sep ws : forallb is_space ws = true -> ";"%char ∉ ws.
Proof.
  induction ws as [|c ws IH]; simpl; [intros _; apply not_elem_of_nil|].
  intros [Hc Hws]%andb_true_iff. apply not_elem_of_cons.
  split; [by intros <- | by apply IH].
Qed.

Lemma token_char_not_space c : is_token_char c = true -> is_space c = false.
Proof.
  destruct c as [[] [] [] [] [] [] [] []]; vm_compute; congruence.
Qed.

Lemma is_value_ends v :
  is_value v = true -> v <> [] /\ starts_space (reverse v) = false.
Proof.
  unfold is_value. intros [Ht|Hq]%orb_true_iff.
  - apply andb_true_iff in Ht as [Hne Hall].
    apply negb_true_iff, bool_decide_eq_false in Hne. split; [done|].
    rewrite <- forallb_reverse in Hall.
    destruct (reverse v) as [|c r]; [done|]. simpl in *.
    apply andb_true_iff in Hall as [Hc _]. by apply token_char_not_space.
  - destruct v as [|c l']; [done|]. split; [done|]. simpl in Hq.
    apply andb_true_iff in Hq as [_ Hq]. rewrite reverse_cons.
    destruct (reverse l') as [|d q]; [done|].
    apply andb_true_iff in Hq as [Hd _].
    apply Ascii.eqb_eq in Hd as ->. reflexivity.
Qed.

Lemma lower_charset_name name :
  lower name = bytes "charset" ->
  ("="%char ∉ name) /\ starts_space name = false /\ name <> [].
Proof.
  intros H.
  assert (Hall : Forall (λ c, c <> "="%char /\ is_space c = false) name).
  { apply Forall_forall. intros c Hc.
    assert (Hl : to_lower c ∈ bytes "charset").
    { rewrite <- H. unfold lower. apply list_elem_of_fmap. by exists c. }
    apply (bool_decide_pack _) in Hl. clear -Hl.
    destruct c as [[] [] [] [] [] [] [] []]; vm_compute in Hl;
      try (by destruct Hl); (split; [by intros [=] | reflexivity]). }
  destruct name as [|c name]; [discriminate H|].
  split; [|split; [|done]].
  - intros Hin. rewrite Forall_forall in Hall. by destruct (Hall _ Hin).
  - simpl. apply Forall_cons_1 in Hall as [[_ Hc] _]. exact Hc.
Qed.

(** C7: [matchesContentType] accepts a header that is the expected type up
    to an optional [charset] parameter, and nothing else: it accepts exactly
    the headers made of the expected media type, in any case and with
    blanks around it, optionally followed by one [; charset=...] parameter.
    It accepts ["application/json"] and ["application/json; charset=utf-8"]
    for ["application/json"] and rejects ["dockerapplication/json"]. *)
Theorem C7_matchesContentType (contentType expectedType : string) :
  (matchesContentType contentType expectedType = true <->
   exists ws1 mt ws2 param : string,
     contentType = ws1 +:+ mt +:+ ws2 +:+ param /\
     blank ws1 /\ blank ws2 /\ bare mt /\ (";"%char ∉ bytes mt) /\
     same_media_type mt expectedType /\
     (param = "" \/ charset_param param)) /\
  matchesContentType "application/json" "application/json" = true /\
  matchesContentType "application/json; charset=utf-8" "application/json" = true /\
  matchesContentType "dockerapplication/json" "application/json" = false.
Proof.
  split; [|by vm_compute].
  unfold matchesContentType. split.
  - destruct (split_at ";" (bytes contentType)) as [m op] eqn:Hsplit.
    intros [Hmt Hp]%andb_true_iff. apply bool_decide_eq_true in Hmt.
    apply split_at_inv in Hsplit as [Hni Hct].
    destruct (trim_inv m) as (w1 & w2 & Hm & Hw1 & Hw2 & Hs & He).
    assert (Hni' : ";"%char ∉ trim m).
    { intros Hin. apply Hni. rewrite Hm. rewrite !elem_of_app. auto. }
    exists (string_of_list_ascii w1), (string_of_list_ascii (trim m)),
      (string_of_list_ascii w2),
      (string_of_list_ascii (match op with Some b => ";"%char :: b | None => [] end)).
    unfold blank, bare, same_media_type. rewrite !bytes_of_list.
    split; [|repeat split; try done].
    + apply bytes_inj. rewrite !bytes_app, !bytes_of_list, Hct.
      rewrite Hm at 1. by rewrite <- !app_assoc.
    + destruct op as [p|]; [right|by left].
      unfold is_charset_param in Hp.
      destruct (split_at "=" (trim p)) as [name [value|]] eqn:Hsp; [|done].
      apply andb_true_iff in Hp as [Hname Hvalue].
      apply bool_decide_eq_true in Hname.
      apply split_at_inv in Hsp as [_ Htp].
      destruct (trim_inv p) as (w3 & w4 & Hpp & Hw3 & Hw4 & _ & _).
      exists (string_of_list_ascii w3), (string_of_list_ascii name),
        (string_of_list_ascii value), (string_of_list_ascii w4).
      unfold blank. rewrite !bytes_of_list. repeat split; try done.
      apply bytes_inj. rewrite !bytes_app, !bytes_of_list.
      change (bytes ";") with [";"%char]. change (bytes "=") with ["="%char].
      simpl. f_equal. rewrite Hpp at 1. rewrite Htp.
      by rewrite <- !app_assoc.
  - intros (ws1 & mt & ws2 & param & -> & Hw1 & Hw2 & [Hs He] & Hni & Hmt & Hparam).
    rewrite !bytes_app.
    assert (Hni' : ";"%char ∉ bytes ws1 ++ bytes mt ++ bytes ws2).
    { rewrite !elem_of_app. intros [H|[H|H]]; [|done|];
        by apply blank_no_sep in H. }
    destruct Hparam as [->|(ws3 & name & value & ws4 & -> & Hw3 & Hw4 & Hname & Hvalue)].
    + change (bytes "") with (@nil ascii). rewrite app_nil_r.
      rewrite split_at_none by done.
      rewrite trim_app by done. rewrite andb_true_r.
      by apply bool_decide_eq_true.
    + assert (Hb : bytes (ws1 +:+ mt +:+ ws2 +:+ ";" +:+ ws3 +:+ name +:+ "="
                          +:+ value +:+ ws4)
                   = (bytes ws1 ++ bytes mt ++ bytes ws2)
                     ++ ";"%char :: (bytes ws3
                          ++ (bytes name ++ "="%char :: bytes value)
                          ++ bytes ws4)).
      { rewrite !bytes_app. change (bytes ";") with [";"%char].
        change (bytes "=") with ["="%char]. simpl. by rewrite <- !app_assoc. }
      rewrite <- !bytes_app, Hb. clear Hb.
      rewrite split_at_app by done.
      rewrite trim_app by done.
      apply andb_true_iff. split; [by apply bool_decide_eq_true|].
      destruct (lower_charset_name _ Hname) as (Hneq & Hns & Hnn).
      destruct (is_value_ends _ Hvalue) as [Hvn Hve].
      rewrite trim_app; try done.
      * unfold is_charset_param. rewrite split_at_app by done.
        apply andb_true_iff. split; [by apply bool_decide_eq_true | done].
      * by rewrite starts_space_app.
      * rewrite reverse_app, reverse_cons.
        rewrite <- app_assoc. rewrite starts_space_app; [done|].
        intros Hr. apply (f_equal reverse) in Hr.
        by rewrite reverse_involutive in Hr.
Qed.

Lemma C7_matchesContentType_witness :
  matchesContentType " Application/JSON ;charset=UTF-8" "application/json"
  = true.
Proof.
  destruct (C7_matchesContentType " Application/JSON ;charset=UTF-8"
              "application/json") as [[_ Haccept] _].
  apply Haccept.
  exists " ", "Application/JSON", " ", ";charset=UTF-8".
  split; [reflexivity|]. split; [reflexivity|]. split; [reflexivity|].
  split; [split; reflexivity|].
  split; [by apply (bool_decide_unpack _)|].
  split; [reflexivity|]. right.
  exists "", "charset", "UTF-8", "".
  repeat split; reflexivity.
Defined.

(** ** The event log *)

Lemma chan_offer_pending (jm : api.JSONMessage) (c : Chan) :
  chan_wf c ->
  chan_wf (chan_offer jm c) /\
  chan_cap (chan_offer jm c) = chan_cap c /\
  chan_pending (chan_offer jm c)
  = chan_pending c ++ (if chan_ready c then [jm] else []).
Proof.
  unfold chan_wf, chan_offer, chan_pending, chan_ready.
  destruct c as [cap buf [| |hand]]; simpl; intros Hwf.
  - destruct (_ <? _)%nat; simpl; by rewrite ?app_nil_r.
  - by rewrite Hwf.
  - destruct (_ <? _)%nat; simpl; by rewrite ?app_nil_r.
Qed.

Lemma chan_receive_pending (c c' : Chan) (r : option api.JSONMessage) :
  chan_receive c = (r, c') ->
  chan_wf c' /\
  chan_pending c = from_option (λ jm, [jm]) [] r ++ chan_pending c' /\
  (r = None -> chan_pending c' = []).
Proof.
  unfold chan_wf, chan_receive, chan_pending.
  destruct c as [cap [|jm rest] [| |hand]]; simpl; intros [= <- <-]; by simpl.
Qed.


Section EventLog.

Context {Runtime : Type}.
Variable listenerBuffer : nat.

Implicit Types (sys : @Sys Runtime) (tr : list action) (l : string).

Local Abbreviation step := (step listenerBuffer).
Local Abbreviation run := (run listenerBuffer).

Lemma run_cons a tr sys : run (a :: tr) sys = run tr (step sys a).
Proof. reflexivity. Qed.




(** A step of another listener leaves the stream of [l] as it is. *)
Lemma forward_other l l' sys :
  l' <> l ->
  listeners (server (forward l' sys)) !! l = listeners (server sys) !! l /\
  outs (forward l' sys) !! l = outs sys !! l /\
  todos (forward l' sys) !! l = todos sys !! l.
Proof.
  intros Hne. unfold forward.
  destruct (todos sys !! l') as [[|jm rest]|]; simpl;
    try (by rewrite !lookup_insert_ne);
    (destruct (listeners (server sys) !! l') as [c0|]; [|done]);
    destruct (chan_receive c0) as [[jm|] c']; simpl;
    by rewrite ?lookup_insert_ne.
Qed.

(** The listener [l] is registered and its channel is well formed. *)
Definition registered l sys : Prop :=
  exists c, listeners (server sys) !! l = Some c /\ chan_wf c.

(** What listener [l] has been sent, has still to replay, and has waiting
    in its channel, in the order in which it is sent them. *)
Definition delivery l sys : list api.JSONMessage :=
  out l sys ++ todo l sys ++ pending l sys.

Lemma step_delivered l a sys :
  registered l sys ->
  keeps_open l a = true ->
  registered l (step sys a) /\
  delivery l (step sys a) = delivery l sys ++ takes l a sys.
Proof.
  intros (c & Hc & Hwf) Hopen. unfold registered, delivery, pending, out, todo.
  destruct a as [now act id|l' since|l'|l']; simpl in *.
  - rewrite lookup_fmap, Hc. simpl.
    destruct (chan_offer_pending (api.mkJSONMessage act "" "" id now None)
                c Hwf) as (Hwf' & _ & Hp).
    split; [eauto|]. rewrite Hp. by rewrite <- !app_assoc.
  - apply negb_true_iff, String.eqb_neq in Hopen.
    rewrite !lookup_insert_ne, Hc by done. simpl.
    split; [eauto | by rewrite app_nil_r].
  - rewrite app_nil_r.
    destruct (decide (l' = l)) as [->|Hne].
    + unfold forward. destruct (todos sys !! l) as [[|jm rest]|] eqn:Ht; simpl.
      * rewrite Hc. destruct (chan_receive c) as [r c'] eqn:Hr. simpl.
        apply chan_receive_pending in Hr as (Hwf' & Hp & _).
        rewrite lookup_insert_eq, Ht. simpl. split; [eauto|].
        rewrite Hp. unfold out.
        destruct r as [jm|]; simpl; [|done].
        rewrite lookup_insert_eq. simpl. by rewrite <- app_assoc.
      * rewrite Hc, !lookup_insert_eq. simpl. split; [eauto|].
        unfold out. by rewrite <- !app_assoc.
      * rewrite Hc. destruct (chan_receive c) as [r c'] eqn:Hr. simpl.
        apply chan_receive_pending in Hr as (Hwf' & Hp & _).
        rewrite lookup_insert_eq, Ht. simpl. split; [eauto|].
        rewrite Hp. unfold out.
        destruct r as [jm|]; simpl; [|done].
        rewrite lookup_insert_eq. simpl. by rewrite <- app_assoc.
    +       destruct (forward_other l l' sys Hne) as (-> & -> & ->).
      rewrite Hc. simpl. eauto.
  - apply negb_true_iff, String.eqb_neq in Hopen.
    rewrite !lookup_delete_ne, Hc by done. simpl.
    split; [eauto | by rewrite app_nil_r].
Qed.

Lemma run_delivered l tr sys :
  registered l sys ->
  forallb (keeps_open l) tr = true ->
  registered l (run tr sys) /\
  delivery l (run tr sys) = delivery l sys ++ accepted listenerBuffer l tr sys.
Proof.
  revert sys. induction tr as [|a tr IH]; intros sys Hreg Hopen.
  - simpl. by rewrite app_nil_r.
  - simpl in Hopen. apply andb_true_iff in Hopen as [Ha Htr].
    destruct (step_delivered l a sys Hreg Ha) as [Hreg' Heq].
    destruct (IH (step sys a) Hreg' Htr) as [Hreg'' Heq'].
    rewrite run_cons. split; [exact Hreg''|].
    rewrite Heq', Heq. simpl. by rewrite <- !app_assoc.
Qed.



(** A step of listener [l] writes the oldest event that waits for it. *)
Lemma forward_takes l sys jm q :
  todo l sys ++ pending l sys = jm :: q ->
  out l (forward l sys) = out l sys ++ [jm] /\
  todo l (forward l sys) ++ pending l (forward l sys) = q.
Proof.
  unfold todo, pending, out, forward.
  destruct (todos sys !! l) as [[|jm' rest]|] eqn:Ht; simpl.
  - destruct (listeners (server sys) !! l) as [c|]; [|done]. simpl.
    destruct (chan_receive c) as [r c'] eqn:Hr.
    destruct (chan_receive_pending _ _ _ Hr) as (_ & Hp & Hnone).
    rewrite Hp. destruct r as [jm'|]; simpl.
    + intros [= -> <-]. by rewrite !lookup_insert_eq, Ht.
    + intros H. by rewrite Hnone in H.
  - intros [= -> <-]. by rewrite !lookup_insert_eq.
  - destruct (listeners (server sys) !! l) as [c|]; [|done]. simpl.
    destruct (chan_receive c) as [r c'] eqn:Hr.
    destruct (chan_receive_pending _ _ _ Hr) as (_ & Hp & Hnone).
    rewrite Hp. destruct r as [jm'|]; simpl.
    + intros [= -> <-]. by rewrite !lookup_insert_eq, Ht.
    + intros H. by rewrite Hnone in H.
Qed.

(** Running the listener as many steps as it has events waiting writes them
    all, in order. *)
Lemma drain_out l sys :
  out l (drain listenerBuffer l sys) = delivery l sys.
Proof.
  unfold drain, delivery. rewrite <- length_app.
  remember (todo l sys ++ pending l sys) as q eqn:Hq.
  revert sys Hq. induction q as [|jm q IH]; intros sys Hq.
  { simpl. by rewrite app_nil_r. }
  cbn [length replicate]. rewrite run_cons. simpl.
  destruct (forward_takes l sys jm q (eq_sym Hq)) as [Hout Hrest].
  rewrite (IH (forward l sys) (eq_sym Hrest)), Hout.
  by rewrite <- app_assoc.
Qed.

Lemma accepted_cons l a tr sys :
  accepted listenerBuffer l (a :: tr) sys
  = takes l a sys ++ accepted listenerBuffer l tr (step sys a).
Proof. reflexivity. Qed.

(** What the channel of a listener that is busy takes of a burst of [k]
    logged events: as many as its buffer has room for. *)
Lemma accepted_burst l k now act id sys c :
  listeners (server sys) !! l = Some c ->
  chan_receiver c = Busy ->
  accepted listenerBuffer l (replicate k (ALog now act id)) sys
  = replicate (k `min` (chan_cap c - length (chan_buf c)))
              (api.mkJSONMessage act "" "" id now None).
Proof.
  revert sys c. induction k as [|k IH]; intros sys c Hc Hbusy; [done|].
  cbn [replicate]. rewrite accepted_cons. unfold takes. rewrite Hc.
  assert (Hc' : listeners (server (step sys (ALog now act id))) !! l
                = Some (chan_offer (api.mkJSONMessage act "" "" id now None) c)).
  { simpl. by rewrite lookup_fmap, Hc. }
  assert (Hbusy' : chan_receiver
                     (chan_offer (api.mkJSONMessage act "" "" id now None) c)
                   = Busy).
  { unfold chan_offer. rewrite Hbusy. by destruct (_ <? _)%nat. }
  rewrite (IH _ _ Hc' Hbusy'). unfold chan_offer, chan_ready. rewrite Hbusy.
  destruct (Nat.ltb_spec (length (chan_buf c)) (chan_cap c)) as [Hlt|Hge].
  - replace (S k `min` (chan_cap c - length (chan_buf c)))%nat
      with (S (k `min` (chan_cap c - (length (chan_buf c) + 1))))%nat by lia.
    cbn [chan_buf chan_cap]. by rewrite length_app.
  - replace (chan_cap c - length (chan_buf c))%nat with 0%nat by lia.
    by rewrite !Nat.min_0_r.
Qed.

(** Whatever the buffer size, a listener that is not scheduled while one
    event more than its buffer holds is logged misses the last one. *)
Lemma slow_listener_drops l since now act id sys0 :
  let jm := api.mkJSONMessage act "" "" id now None in
  let tr := replicate (S listenerBuffer) (ALog now act id) in
  logged tr = replicate (S listenerBuffer) jm /\
  out l (drain listenerBuffer l (run tr (streamSince listenerBuffer l since sys0)))
  = replay since (server sys0) ++ replicate listenerBuffer jm.
Proof.
  intros jm tr. split.
  { unfold tr. generalize (S listenerBuffer) as k.
    induction k as [|k IH]; simpl; [done|]. by rewrite <- IH. }
  set (sys1 := streamSince listenerBuffer l since sys0).
  assert (Hc : listeners (server sys1) !! l
               = Some (mkChan listenerBuffer [] Busy)).
  { simpl. by rewrite lookup_insert_eq. }
  assert (Hreg : registered l sys1) by (eexists; split; [exact Hc | done]).
  assert (Hopen : forallb (keeps_open l) tr = true).
  { unfold tr. generalize (S listenerBuffer) as k.
    induction k as [|k IH]; simpl; done. }
  destruct (run_delivered l tr sys1 Hreg Hopen) as [_ Heq].
  rewrite drain_out, Heq.
  unfold tr. rewrite (accepted_burst _ _ _ _ _ _ _ Hc eq_refl).
  cbn [chan_cap chan_buf length].
  replace (S listenerBuffer `min` (listenerBuffer - 0))%nat
    with listenerBuffer by lia.
  unfold delivery, out, todo, pending. rewrite Hc. unfold sys1. simpl.
  by rewrite !lookup_insert_eq, app_nil_r.
Qed.


End EventLog.



(** ** The router *)

Section RouterProps.

Context {Runtime : Type}.

Lemma writeCorsHeaders_headers (resp : Response) :
  resp_headers (writeCorsHeaders resp) !! "Access-Control-Allow-Origin"
  = Some "*" /\
  resp_headers (writeCorsHeaders resp) !! "Access-Control-Allow-Methods"
  = Some "GET, POST, DELETE, PUT, OPTIONS" /\
  resp_headers (writeCorsHeaders resp) !! "Access-Control-Allow-Headers"
  = Some "Origin, X-Requested-With, Content-Type, Accept".
Proof.
  change (resp_headers (writeCorsHeaders resp))
    with (<["Access-Control-Allow-Origin" := "*"]>
          (<["Access-Control-Allow-Methods" := "GET, POST, DELETE, PUT, OPTIONS"]>
           (<["Access-Control-Allow-Headers"
              := "Origin, X-Requested-With, Content-Type, Accept"]>
            (resp_headers resp)))).
  repeat split.
  - by rewrite lookup_insert_eq.
  - rewrite lookup_insert_ne by done. by rewrite lookup_insert_eq.
  - rewrite !lookup_insert_ne by done. by rewrite lookup_insert_eq.
Qed.

Lemma dispatch_options (routes : list (@Route Runtime)) srv req :
  req_method req = "OPTIONS" ->
  dispatch routes srv req = (srv, mkResponse 200 ∅ NoBody).
Proof. unfold dispatch. by intros ->. Qed.

(** C8: with CORS enabled, the response the router gives to any request
    carries [Access-Control-Allow-Origin: *],
    [Access-Control-Allow-Methods: GET, POST, DELETE, PUT, OPTIONS] and
    [Access-Control-Allow-Headers: Origin, X-Requested-With, Content-Type,
    Accept]; an [OPTIONS] request, whatever its path, is answered with
    status 200, no body and these three headers only, and leaves the
    server as it was. *)
Theorem C8_cors (routes : list (@Route Runtime)) srv req :
  enableCors srv = true ->
  let srv' := (ServeHTTP routes srv req).1 in
  let resp := (ServeHTTP routes srv req).2 in
  resp_headers resp !! "Access-Control-Allow-Origin" = Some "*" /\
  resp_headers resp !! "Access-Control-Allow-Methods"
  = Some "GET, POST, DELETE, PUT, OPTIONS" /\
  resp_headers resp !! "Access-Control-Allow-Headers"
  = Some "Origin, X-Requested-With, Content-Type, Accept" /\
  (req_method req = "OPTIONS" ->
   srv' = srv /\ resp_status resp = 200 /\ resp_body resp = NoBody /\
   resp_headers resp = list_to_map corsHeaders).
Proof.
  intros Hcors srv' resp. subst srv' resp. unfold ServeHTTP.
  destruct (dispatch routes srv req) as [srv' resp] eqn:Hd.
  rewrite Hcors. simpl.
  destruct (writeCorsHeaders_headers resp) as (Ho & Hm & Hh).
  split; [exact Ho|]. split; [exact Hm|]. split; [exact Hh|].
  intros Hopt. rewrite (dispatch_options routes srv req Hopt) in Hd.
  by injection Hd as <- <-.
Qed.

End RouterProps.

Lemma C8_cors_witness :
  let getVersion : @Handler unit := λ srv _ _ _,
    (LogEvent 7 "version" "" srv,
     inl (mkResponse 200 {["Content-Type" := "application/json"]}
                     (JSONBody "{}"))) in
  let routes := [mkRoute "GET" [Lit "version"] (1, 0)%nat false getVersion] in
  let srv : @Server unit := mkServer tt true [] 64 ∅ in
  let options := mkRequest "OPTIONS" (1, 5)%nat [] "" "" in
  let get := mkRequest "GET" (1, 5)%nat ["version"] "" "" in
  ServeHTTP routes srv options
  = (srv, mkResponse 200 (list_to_map corsHeaders) NoBody) /\
  resp_status (ServeHTTP routes srv get).2 = 200 /\
  resp_headers (ServeHTTP routes srv get).2 !! "Access-Control-Allow-Origin"
  = Some "*".
Proof.
  intros getVersion routes srv options get.
  destruct (C8_cors routes srv options eq_refl) as (_ & _ & _ & Hopt).
  destruct (Hopt eq_refl) as (Hsrv & Hstatus & Hbody & Hheaders).
  destruct (C8_cors routes srv get eq_refl) as (Horigin & _).
  split; [|split; [reflexivity | exact Horigin]].
  destruct (ServeHTTP routes srv options) as [srv' [status headers body]].
  simpl in *. by subst.
Defined.

(** ** The cases of [api_test.go] on the modelled operations *)

(** [TestGetBoolParam] *)
Example TestGetBoolParam :
  getBoolParam "true" = (true, None) /\
  getBoolParam "True" = (true, None) /\
  getBoolParam "1" = (true, None) /\
  getBoolParam "" = (false, None) /\
  getBoolParam "false" = (false, None) /\
  getBoolParam "0" = (false, None) /\
  getBoolParam "faux" = (false, Some (BadParameter "faux")).
Proof. repeat split. Qed.

(** [TestGetEvents]: two events are logged, then the events of
    [/events?since=1] are read back and compared with [srv.events]. *)
Example TestGetEvents :
  let srv : @Server unit := mkServer tt false [] 64 ∅ in
  let srv := LogEvent 1384000000 "fakeaction" "fakeid" srv in
  let srv := LogEvent 1384000001 "fakeaction2" "fakeid" srv in
  let sys := drain 0 "client" (streamSince 0 "client" 1 (mkSys srv ∅ ∅)) in
  out "client" sys = events srv /\ length (events srv) = 2%nat.
Proof. by vm_compute. Qed.

(** [TestJsonContentType] *)
Example TestJsonContentType :
  matchesContentType "application/json" "application/json" = true /\
  matchesContentType "application/json; charset=utf-8" "application/json" = true /\
  matchesContentType "dockerapplication/json" "application/json" = false.
Proof. repeat split. Qed.

(** The match is on the media type, not on the text of the header. *)
Example matchesContentType_semantic :
  matchesContentType "application/json;charset=utf-8" "application/json" = true /\
  matchesContentType "Application/JSON" "application/json" = true /\
  matchesContentType "application/json; charset=;;;garbage" "application/json"
  = false /\
  matchesContentType "application/json; boundary=x" "application/json" = false /\
  matchesContentType "application/jsonx" "application/json" = false.
Proof. repeat split. Qed.

(** [TestOptionsRoute]: [OPTIONS /] on a server with CORS enabled. *)
Example TestOptionsRoute (routes : list (@Route unit)) :
  let srv : @Server unit := mkServer tt true [] 0 ∅ in
  let req := mkRequest "OPTIONS" (1, 5)%nat [] "" "" in
  resp_status (ServeHTTP routes srv req).2 = 200.
Proof. reflexivity. Qed.

(** * Further properties of the code *)

(** ** state.go *)

Lemma append_nil_l (s : string) : "" +:+ s = s.
Proof. reflexivity. Qed.

Lemma append_nil_r (s : string) : s +:+ "" = s.
Proof.
  induction s as [|a s IH]; [reflexivity|]. by rewrite append_cons, IH.
Qed.

Lemma append_inj_l (p s t : string) : p +:+ s = p +:+ t -> s = t.
Proof.
  induction p as [|a p IH]; [done|].
  rewrite !append_cons. intros [= H]. by apply IH.
Qed.

(** [%d] renders different integers differently. *)
Lemma fmt_d_inj (n m : Z) : fmt_d n = fmt_d m -> n = m.
Proof.
  unfold fmt_d. intros H. apply DecimalZ.to_int_inj.
  assert (Hnn : forall z, Z.to_int z <> Decimal.Pos Decimal.Nil /\
                          Z.to_int z <> Decimal.Neg Decimal.Nil).
  { intros [|p|p]; simpl; split; try discriminate;
      intros [= Hp]; by apply (DecimalPos.Unsigned.to_uint_nonnil p). }
  assert (Hs : NilZero.int_of_string (NilZero.string_of_int (Z.to_int n))
               = NilZero.int_of_string (NilZero.string_of_int (Z.to_int m)))
    by (by rewrite H).
  rewrite !NilZero.isi in Hs by apply Hnn. by injection Hs.
Qed.

Lemma embMutex_run_calls cs s : embMutex (run_calls cs s) = embMutex s.
Proof.
  revert s. induction cs as [|c cs IH]; intros s; [done|].
  simpl. rewrite IH. by destruct c.
Qed.

(** X1: the two mutators alone never produce a ghost, and they keep the exit
    code at 0 while the container runs: in every state reachable from the
    zero state [Ghost] is false, a running state has [ExitCode = 0], and
    [String] is never ["Ghost"]. *)
Theorem reachable_no_ghost (s : State) :
  reachable s ->
  Ghost s = false /\
  (Running s = true -> ExitCode s = 0) /\
  forall HumanDuration now, State_String HumanDuration now s <> "Ghost".
Proof.
  intros Hr.
  assert (H : Ghost s = false /\ (Running s = true -> ExitCode s = 0)).
  { induction Hr as [|now pid s _ _|exitCode s _ [IHg _]].
    - split; [reflexivity | intros H; discriminate H].
    - split; reflexivity.
    - split; [exact IHg | intros H; discriminate H]. }
  destruct H as [Hg He]. split; [exact Hg|]. split; [exact He|].
  intros hd now. unfold State_String. rewrite Hg.
  destruct (Running s); intros H; rewrite !append_cons in H; discriminate H.
Qed.

Lemma reachable_no_ghost_witness :
  let s := setStopped 137 (setRunning 5 42 zeroState) in
  Ghost s = false /\ State_String (λ _, "a second") 9 s <> "Ghost".
Proof.
  intros s.
  assert (Hr : reachable s) by (repeat constructor).
  destruct (reachable_no_ghost s Hr) as (Hg & _ & Hs).
  split; [exact Hg | apply Hs].
Defined.

(** X2: the description tells the three situations apart, whatever
    [HumanDuration] prints: it is ["Ghost"] exactly for a running ghost,
    starts with ["Exit "] exactly for a stopped state, and starts with
    ["Up "] exactly for a running state that is not a ghost. *)
Theorem State_String_decides (HumanDuration : Duration -> string)
    (now : Time) (s : State) :
  (State_String HumanDuration now s = "Ghost"
   <-> Running s = true /\ Ghost s = true) /\
  (String.prefix "Exit " (State_String HumanDuration now s) = true
   <-> Running s = false) /\
  (String.prefix "Up " (State_String HumanDuration now s) = true
   <-> Running s = true /\ Ghost s = false).
Proof.
  unfold State_String.
  destruct (Running s), (Ghost s); (split; [|split]); split;
    try (intros [? ?]); try intros ?; try discriminate; try done;
    try (split; reflexivity);
    try (apply prefix_iff_append; by eexists);
    try (match goal with H : String.prefix _ _ = true |- _ =>
           apply prefix_iff_append in H as [t Ht];
           rewrite !append_cons in Ht; discriminate Ht end);
    try (match goal with H : _ +:+ _ = _ |- _ =>
           rewrite !append_cons in H; discriminate H end).
Qed.

(** X3: two stopped states have the same description exactly when they have
    the same exit code. *)
Theorem State_String_exit_code (HumanDuration : Duration -> string)
    (now1 now2 : Time) (s1 s2 : State) :
  Running s1 = false -> Running s2 = false ->
  (State_String HumanDuration now1 s1 = State_String HumanDuration now2 s2
   <-> ExitCode s1 = ExitCode s2).
Proof.
  intros H1 H2. unfold State_String. rewrite H1, H2. split.
  - intros H. by apply fmt_d_inj, (append_inj_l "Exit ").
  - by intros ->.
Qed.

Lemma State_String_exit_code_witness :
  State_String (λ _, "") 3 (setStopped 137 zeroState)
  <> State_String (λ _, "") 8 (setStopped 1 (setRunning 5 42 zeroState)).
Proof.
  intros H.
  apply (State_String_exit_code (λ _, "") 3 8 (setStopped 137 zeroState)
           (setStopped 1 (setRunning 5 42 zeroState)) eq_refl eq_refl) in H.
  discriminate H.
Defined.

(** X4: the last call decides. After any sequence of calls a [setRunning]
    leaves the same state as on the state before the sequence, and a
    [setStopped] overrides an earlier [setStopped]. *)
Theorem setRunning_last_wins (cs : list call) (now : Time) (pid : Z)
    (e1 e2 : Z) (s : State) :
  run_calls (cs ++ [SetRunning now pid]) s = setRunning now pid s /\
  setStopped e2 (setStopped e1 s) = setStopped e2 s.
Proof.
  split; [|reflexivity].
  rewrite run_calls_snoc. simpl. unfold setRunning, set_StartedAt; simpl.
  by rewrite embMutex_run_calls.
Qed.

(** X5: [setStopped] keeps the start time and the ghost flag, so after any
    sequence of calls [StartedAt] is the time of the last [setRunning] (the
    initial one when there was none), and the ghost flag is the initial one
    until the first [setRunning] clears it. *)
Theorem run_calls_StartedAt_Ghost (cs : list call) (s : State) :
  StartedAt (run_calls cs s) = last_start cs (StartedAt s) /\
  Ghost (run_calls cs s) = (if has_start cs then false else Ghost s).
Proof.
  revert s. induction cs as [|[now pid|exitCode] cs IH]; intros s.
  - done.
  - simpl. destruct (IH (setRunning now pid s)) as [-> ->].
    split; [done | by destruct (has_start cs)].
  - simpl. destruct (IH (setStopped exitCode s)) as [-> ->]. done.
Qed.

(** X11: the description after a sequence of calls is decided by its last
    call: after a final [setStopped(exitCode)] it is ["Exit <exitCode>"],
    ghost or not; after a final [setRunning] at time [t] it is ["Up "]
    followed by the rendering of the time elapsed since [t]. *)
Theorem State_String_after_calls (HumanDuration : Duration -> string)
    (cs : list call) (now t : Time) (pid exitCode : Z) (s : State) :
  State_String HumanDuration now (run_calls (cs ++ [SetStopped exitCode]) s)
  = "Exit " +:+ fmt_d exitCode /\
  State_String HumanDuration now (run_calls (cs ++ [SetRunning t pid]) s)
  = "Up " +:+ HumanDuration (Sub now t).
Proof. rewrite !run_calls_snoc. split; reflexivity. Qed.

(** ** api/types.go *)

Lemma Change_String_cases (c : api.Change) :
  (api.Kind c = 0 /\ api.Change_String c = "C " +:+ api.Path c) \/
  (api.Kind c = 1 /\ api.Change_String c = "A " +:+ api.Path c) \/
  (api.Kind c = 2 /\ api.Change_String c = "D " +:+ api.Path c) \/
  (~ 0 <= api.Kind c <= 2 /\ api.Change_String c = " " +:+ api.Path c).
Proof.
  unfold api.Change_String.
  change api.ChangeModify with 0. change api.ChangeAdd with 1.
  change api.ChangeDelete with 2.
  destruct (Z.eqb_spec (api.Kind c) 0); [by left|].
  destruct (Z.eqb_spec (api.Kind c) 1); [by right; left|].
  destruct (Z.eqb_spec (api.Kind c) 2); [by right; right; left|].
  right; right; right. split; [lia | reflexivity].
Qed.

(** X6: the rendering of a change can be read back. Two changes with the
    same rendering have the same path, and the same kind as soon as one of
    them has one of the three kinds [ChangeModify], [ChangeAdd],
    [ChangeDelete]; only kinds outside these three are conflated. *)
Theorem Change_String_inj (c1 c2 : api.Change) :
  api.Change_String c1 = api.Change_String c2 ->
  api.Path c1 = api.Path c2 /\
  (0 <= api.Kind c1 <= 2 -> api.Kind c1 = api.Kind c2).
Proof.
  intros H.
  destruct (Change_String_cases c1) as [[K1 E1]|[[K1 E1]|[[K1 E1]|[K1 E1]]]];
  destruct (Change_String_cases c2) as [[K2 E2]|[[K2 E2]|[[K2 E2]|[K2 E2]]]];
    rewrite E1, E2, !append_cons, !append_nil_l in H;
    try discriminate H; injection H as H;
    (split; [exact H | intros ?; congruence || lia]).
Qed.

Lemma Change_String_inj_witness :
  let c1 := api.mkChange "/var/log" api.ChangeDelete in
  let c2 := api.mkChange "/var/log" 2 in
  api.Change_String c1 = api.Change_String c2 /\
  0 <= api.Kind c1 <= 2 /\
  api.Path c1 = api.Path c2 /\ api.Kind c1 = api.Kind c2.
Proof.
  intros c1 c2.
  assert (Hs : api.Change_String c1 = api.Change_String c2) by reflexivity.
  assert (Hk : 0 <= api.Kind c1 <= 2) by (vm_compute; intuition discriminate).
  destruct (Change_String_inj c1 c2 Hs) as [Hp Hkind].
  split; [exact Hs|]. split; [exact Hk|]. split; [exact Hp | exact (Hkind Hk)].
Defined.

Section DisplayProps.

Variable fmtUnix : Z -> string.

(** X7: [Display] fails exactly when the message carries an error, and then
    it writes nothing; the text of the error it returns is the message of
    the carried error, except for code 401, where it is the fixed text
    ["Authentication is required."] whatever the message says. *)
Theorem Display_error (jm : api.JSONMessage) (out : string) :
  (snd (api.Display fmtUnix jm out) = None <-> api.Error jm = None) /\
  (forall e, api.Error jm = Some e ->
     fst (api.Display fmtUnix jm out) = out /\
     exists err, snd (api.Display fmtUnix jm out) = Some err /\
       api.GoError_Error err
       = if api.Code e =? 401 then "Authentication is required."
         else api.Message e).
Proof.
  unfold api.Display. split.
  - destruct (api.Error jm) as [e|]; [|done].
    by destruct (api.Code e =? 401).
  - intros e ->. destruct (api.Code e =? 401); (split; [done|]); by eexists.
Qed.

End DisplayProps.

Lemma Display_error_witness :
  let jm := api.mkJSONMessage "" "" "" "" 0
              (Some (api.mkJSONError 401 "token expired")) in
  fst (api.Display (λ _, "") jm "log: ") = "log: " /\
  exists err, snd (api.Display (λ _, "") jm "log: ") = Some err /\
    api.GoError_Error err = "Authentication is required.".
Proof.
  intros jm.
  destruct (Display_error (λ _, "") jm "log: ") as [_ H].
  exact (H _ eq_refl).
Defined.

(** The order of Go strings is a total order. *)
Lemma string_leb_trans (s1 s2 s3 : string) :
  String.leb s1 s2 = true -> String.leb s2 s3 = true -> String.leb s1 s3 = true.
Proof.
  unfold String.leb. revert s2 s3.
  induction s1 as [|a s1 IH]; intros [|b s2] [|c s3]; simpl; try done.
  unfold Ascii.compare.
  destruct (N.compare_spec (N_of_ascii a) (N_of_ascii b)) as [Hab|Hab|Hab];
    destruct (N.compare_spec (N_of_ascii b) (N_of_ascii c)) as [Hbc|Hbc|Hbc];
    destruct (N.compare_spec (N_of_ascii a) (N_of_ascii c)) as [Hac|Hac|Hac];
    try done; try lia.
  apply IH.
Qed.

#[local] Instance string_le_trans : Transitive api.string_le.
Proof. intros s1 s2 s3. apply string_leb_trans. Qed.

#[local] Instance string_le_total : Total api.string_le.
Proof. intros s1 s2. apply String.leb_total. Qed.

#[local] Instance string_le_antisymm : AntiSymm (=) api.string_le.
Proof. intros s1 s2. apply String.leb_antisym. Qed.

(** Sorting gives the same list for every order of the input. *)
Lemma sort_Strings_Permutation (a b : list string) :
  a ≡ₚ b -> api.sort_Strings a = api.sort_Strings b.
Proof.
  intros Hab. unfold api.sort_Strings.
  apply (StronglySorted_unique api.string_le);
    try apply StronglySorted_merge_sort; try apply _.
  by rewrite !merge_sort_Permutation.
Qed.

Lemma append_eq_nil (s t : string) : s +:+ t = "" -> s = "" /\ t = "".
Proof. destruct s; [done | rewrite append_cons; discriminate]. Qed.

Lemma Join_eq_nil (a : list string) (sep : string) :
  Forall (λ s, s <> "") a -> api.Join a sep = "" -> a = [].
Proof.
  unfold api.Join. destruct a as [|x [|y a]]; [done| |]; simpl;
    intros Hne%Forall_cons_1 H; destruct Hne as [Hx _].
  - done.
  - by apply append_eq_nil in H as [? _].
Qed.

(** X9: the result of [PortMappingHuman] does not depend on the order in
    which the two [range] loops visit the maps: every order of visit gives
    the result of the order of [map_to_list]. *)
Theorem PortMappingHuman_any_order (settings : api.NetworkSettings)
    (tcp udp : list (string * string)) :
  tcp ≡ₚ map_to_list (api.portMapping_at settings "Tcp") ->
  udp ≡ₚ map_to_list (api.portMapping_at settings "Udp") ->
  api.PortMappingHuman_visiting tcp udp = api.PortMappingHuman settings.
Proof.
  intros Htcp Hudp. unfold api.PortMappingHuman, api.PortMappingHuman_visiting.
  f_equal. apply sort_Strings_Permutation. by rewrite Htcp, Hudp.
Qed.

Lemma PortMappingHuman_any_order_witness :
  let settings := api.mkNetworkSettings "172.17.0.2" 16 "172.17.42.1" "docker0"
    {[ "Tcp" := {[ "80" := "49153"; "22" := "49154" ]} ;
       "Udp" := {[ "53" := "49153" ]} ]} in
  api.PortMappingHuman_visiting [("80", "49153"); ("22", "49154")]
                                [("53", "49153")]
  = "49153->53/udp, 49153->80, 49154->22" /\
  api.PortMappingHuman_visiting [("22", "49154"); ("80", "49153")]
                                [("53", "49153")]
  = "49153->53/udp, 49153->80, 49154->22".
Proof.
  intros settings.
  assert (Hudp : [("53", "49153")]
                 ≡ₚ map_to_list (api.portMapping_at settings "Udp"))
    by (by vm_compute).
  assert (H1 : [("80", "49153"); ("22", "49154")]
               ≡ₚ map_to_list (api.portMapping_at settings "Tcp")).
  { apply (bool_decide_unpack _). by vm_compute. }
  assert (H2 : [("22", "49154"); ("80", "49153")]
               ≡ₚ map_to_list (api.portMapping_at settings "Tcp")).
  { apply (bool_decide_unpack _). by vm_compute. }
  rewrite (PortMappingHuman_any_order settings _ _ H1 Hudp).
  rewrite (PortMappingHuman_any_order settings _ _ H2 Hudp).
  split; by vm_compute.
Defined.

(** X10: [PortMappingHuman] is the empty string exactly when there is no
    mapping to show, that is when the ["Tcp"] and the ["Udp"] map are both
    missing or empty. *)
Theorem PortMappingHuman_empty (settings : api.NetworkSettings) :
  api.PortMappingHuman settings = ""
  <-> api.portMapping_at settings "Tcp" = ∅ /\
      api.portMapping_at settings "Udp" = ∅.
Proof.
  unfold api.PortMappingHuman, api.PortMappingHuman_visiting. split.
  - set (mapping := ([] ++ _) ++ _). intros H.
    assert (Hne : Forall (λ s, s <> "") mapping).
    { apply Forall_app. split; apply Forall_fmap, Forall_forall;
        intros [k v] _ H'; simpl in H';
        apply append_eq_nil in H' as [_ H']; discriminate H'. }
    assert (Hperm : api.sort_Strings mapping ≡ₚ mapping)
      by apply merge_sort_Permutation.
    apply Join_eq_nil in H; [|by rewrite Hperm].
    rewrite H in Hperm. apply Permutation_nil_l in Hperm.
    symmetry in Hperm. unfold mapping in Hperm. simpl in Hperm.
    apply app_eq_nil in Hperm as [Ht Hu].
    apply fmap_nil_inv in Ht, Hu.
    by apply map_to_list_empty_iff in Ht, Hu.
  - intros [-> ->]. reflexivity.
Qed.
